(** * Directory apostrophe standardization: a shallow embedding

    Source: [02_01_replace_directory_apostrophes.py] (class
    [DirectoryRenamer] and the module constants it uses).

    - Python [str] values are sequences of Unicode code points: [str] below.
    - A [pathlib.Path] is the list of its components under a fixed anchor.
    - The file system is a finite map from paths to [os.stat] results; only
      directories are tracked, because the script never looks at files.
    - The [DirectoryRenamer] object and the file system are threaded
      explicitly through every method as one [State] record. *)

From Stdlib Require Import Ascii String.
From stdpp Require Import base list gmap sorting.

Set Default Proof Using "Type".

(** ** Python strings *)

(** A code point. *)
Abbreviation char := N.
(** A Python [str]. *)
Abbreviation str := (list char).

(** Reads an ASCII literal as a [str]. *)
Fixpoint of_ascii (s : string) : str :=
  match s with
  | EmptyString => []
  | String a s' => N_of_ascii a :: of_ascii s'
  end.

(** [s.startswith(p)]. *)
Fixpoint startswith (p s : str) : bool :=
  match p, s with
  | [], _ => true
  | _ :: _, [] => false
  | a :: p', b :: s' => N.eqb a b && startswith p' s'
  end.

(** [sub in s]: [sub] occurs in [s] as a contiguous run. *)
Fixpoint str_in (sub s : str) : bool :=
  startswith sub s ||
  match s with
  | [] => false
  | _ :: s' => str_in sub s'
  end.

(** The scan of [s.replace(old, new)] for a non-empty [old]: left to right,
    occurrences do not overlap.  [skip] counts the characters of the
    occurrence just replaced that are still to be dropped. *)
Fixpoint replace_scan (old new : str) (skip : nat) (s : str) : str :=
  match s with
  | [] => []
  | c :: s' =>
      match skip with
      | S k => replace_scan old new k s'
      | O =>
          if startswith old s
          then new ++ replace_scan old new (pred (length old)) s'
          else c :: replace_scan old new O s'
      end
  end.

(** [s.replace(old, new)].  With an empty [old] Python inserts [new] before
    every character and at the end. *)
Definition str_replace (old new s : str) : str :=
  match old with
  | [] => new ++ flat_map (λ c, c :: new) s
  | _ :: _ => replace_scan old new O s
  end.

(** ** Module constants *)

(** The two literals of the module.  The methods of [DirectoryRenamer] are
    written against this interface, so that what depends on the value of a
    literal and what does not can be told apart. *)
Class Constants := {
  STRAIGHT_APOSTROPHE : str;
  TYPOGRAPHIC_APOSTROPHE : str;
}.

(** U+0027 APOSTROPHE and U+2019 RIGHT SINGLE QUOTATION MARK. *)
Definition U0027 : char := 39%N.
Definition U2019 : char := 8217%N.

(** The constants as the source file has them.  Line 36 reads
    [TYPOGRAPHIC_APOSTROPHE = "'"  # U+2019]: the literal between the quotes
    is the single byte 0x27, the same character as [STRAIGHT_APOSTROPHE],
    whatever the comment behind it says. *)
#[export] Instance as_written : Constants := {|
  STRAIGHT_APOSTROPHE := [U0027];
  TYPOGRAPHIC_APOSTROPHE := [U0027];
|}.

(** The constants as the comments of lines 35-36 and the module docstring
    describe them.  Not an instance: the program is [as_written]. *)
Definition as_documented : Constants := {|
  STRAIGHT_APOSTROPHE := [U0027];
  TYPOGRAPHIC_APOSTROPHE := [U2019];
|}.

(** [\d] of module [re] on a [str] pattern matches every character of the
    Unicode category Nd; the table belongs to the interpreter. *)
Class UnicodeData := { is_decimal : char → bool }.

(** A table with the ASCII digits only, for running examples. *)
Definition ascii_digits : UnicodeData :=
  {| is_decimal c := N.leb 48 c && N.leb c 57 |}.

(** [YEAR_PATTERN.match(dir_name)] for [YEAR_PATTERN = re.compile(r'^\d{4}')]. *)
Definition YEAR_PATTERN_match {unicode : UnicodeData} (dir_name : str) : bool :=
  match dir_name with
  | a :: b :: c :: d :: _ =>
      is_decimal a && is_decimal b && is_decimal c && is_decimal d
  | _ => false
  end.

(** ** Classification and transformation of a name *)

Section Names.
Context {consts : Constants}.

Definition has_straight_apostrophe (dir_name : str) : bool :=
  str_in STRAIGHT_APOSTROPHE dir_name.

Definition has_typographic_apostrophe (dir_name : str) : bool :=
  str_in TYPOGRAPHIC_APOSTROPHE dir_name.

Definition needs_standardization (dir_name : str) : bool :=
  has_straight_apostrophe dir_name && negb (has_typographic_apostrophe dir_name).

Definition standardize_apostrophes (dir_name : str) : str :=
  str_replace STRAIGHT_APOSTROPHE TYPOGRAPHIC_APOSTROPHE dir_name.
End Names.

(** ** Paths *)

(** A [pathlib.Path]: its components below the anchor, outermost first.
    All paths of one run hang off the same [base_dir] and so share their
    anchor, which adds the same constant to every [len(p.parts)]. *)
Abbreviation Path := (list str).

(** [p.name]: the last component, the empty string when there is none. *)
Definition name (p : Path) : str := default [] (last p).

(** [p.parent]. *)
Definition parent (p : Path) : Path := removelast p.

(** [len(p.parts)], up to the anchor. *)
Definition parts_len (p : Path) : nat := length p.

(** ** The file system *)

(** What [os.stat] returns, restricted to the fields the script reads.
    Time stamps are kept as opaque integers. *)
Record stat_result := {
  st_mode : Z;
  st_uid : Z;
  st_gid : Z;
  st_atime : Z;
  st_mtime : Z;
  st_ctime : Z;
}.

(** The directories that exist, each with its attributes. *)
Abbreviation FileSystem := (gmap Path stat_result).

(** A tree is well formed when every ancestor of a directory exists. *)
Definition fs_wf (fs : FileSystem) : Prop :=
  ∀ p q : Path, is_Some (fs !! p) → q `prefix_of` p → is_Some (fs !! q).

Inductive OSError := ENOENT | EINVAL | ENOTEMPTY.

(** [str(e)] for an [OSError]. *)
Definition strerror (e : OSError) : string :=
  match e with
  | ENOENT => "[Errno 2] No such file or directory"
  | EINVAL => "[Errno 22] Invalid argument"
  | ENOTEMPTY => "[Errno 39] Directory not empty"
  end.

(** The outcome of a system call that may raise. *)
Inductive result (A : Type) :=
  | Ok (a : A)
  | Raise (e : OSError).
Arguments Ok {A} a.
Arguments Raise {A} e.

(** [p.exists()]. *)
Definition path_exists (fs : FileSystem) (p : Path) : bool :=
  bool_decide (is_Some (fs !! p)).

(** [os.stat(p)]; [None] stands for the exception. *)
Definition os_stat (fs : FileSystem) (p : Path) : option stat_result := fs !! p.

(** [os.chmod(p, mode)]: only the permission bits of [mode] are taken. *)
Definition os_chmod (fs : FileSystem) (p : Path) (mode : Z) : result FileSystem :=
  match fs !! p with
  | None => Raise ENOENT
  | Some st =>
      let m := Z.lor (Z.land (st_mode st) (Z.lnot 4095)) (Z.land mode 4095) in
      Ok (<[p := {| st_mode := m; st_uid := st_uid st; st_gid := st_gid st;
                    st_atime := st_atime st; st_mtime := st_mtime st;
                    st_ctime := st_ctime st |}]> fs)
  end.

(** [os.chown(p, uid, gid)]. *)
Definition os_chown (fs : FileSystem) (p : Path) (uid gid : Z) : result FileSystem :=
  match fs !! p with
  | None => Raise ENOENT
  | Some st =>
      Ok (<[p := {| st_mode := st_mode st; st_uid := uid; st_gid := gid;
                    st_atime := st_atime st; st_mtime := st_mtime st;
                    st_ctime := st_ctime st |}]> fs)
  end.

(** [os.utime(p, (atime, mtime))]. *)
Definition os_utime (fs : FileSystem) (p : Path) (atime mtime : Z) : result FileSystem :=
  match fs !! p with
  | None => Raise ENOENT
  | Some st =>
      Ok (<[p := {| st_mode := st_mode st; st_uid := st_uid st; st_gid := st_gid st;
                    st_atime := atime; st_mtime := mtime;
                    st_ctime := st_ctime st |}]> fs)
  end.

(** Where a path below [src] lands when [src] becomes [dst]. *)
Definition relocate (src dst p : Path) : Path := dst ++ drop (length src) p.

(** The tree after [src] has been moved to [dst] with everything below it. *)
Definition move_tree (fs : FileSystem) (src dst : Path) : FileSystem :=
  let moved :=
    (λ kv : Path * stat_result, (relocate src dst kv.1, kv.2))
      <$> map_to_list (filter (λ kv, src `prefix_of` kv.1) fs) in
  list_to_map moved ∪ filter (λ kv, ¬ src `prefix_of` kv.1) fs.

(** Does [p] have an entry below it? *)
Definition has_children (fs : FileSystem) (p : Path) : bool :=
  bool_decide (filter (λ kv : Path * stat_result, p `prefix_of` kv.1 ∧ kv.1 ≠ p) fs ≠ ∅).

(** [src.rename(dst)], that is [os.rename] on directories: the source must
    exist, the parent of the destination must exist, a directory cannot be
    moved below itself, and an existing destination is replaced only when it
    is empty. *)
Definition os_rename (fs : FileSystem) (src dst : Path) : result FileSystem :=
  if negb (path_exists fs src) then Raise ENOENT
  else if bool_decide (src = dst) then Ok fs
  else if negb (path_exists fs (parent dst)) then Raise ENOENT
  else if bool_decide (src `prefix_of` dst) then Raise EINVAL
  else if path_exists fs dst && has_children fs dst then Raise ENOTEMPTY
  else Ok (move_tree fs src dst).

(** The entries of [top], in the order the directory is listed. *)
Definition scandir (fs : FileSystem) (top : Path) : list Path :=
  if path_exists fs top
  then filter (λ p, p ≠ [] ∧ parent p = top) (map_to_list fs).*1
  else [].

(** [Path(root) / dir_name] for every [(root, dirs, _)] that [os.walk(top)]
    yields and every [dir_name] of [dirs], in that order: the entries of
    [top], then the walk of each of them in turn. *)
Fixpoint walk_dirs (fuel : nat) (fs : FileSystem) (top : Path) : list Path :=
  match fuel with
  | O => []
  | S fuel' =>
      let dirs := scandir fs top in
      dirs ++ flat_map (walk_dirs fuel' fs) dirs
  end.

(** No directory lies deeper than this. *)
Definition depth_bound (fs : FileSystem) : nat := max_list (length <$> (map_to_list fs).*1).

(** The walk with fuel for the whole tree. *)
Definition os_walk_dirs (fs : FileSystem) (top : Path) : list Path :=
  walk_dirs (S (depth_bound fs)) fs top.

(** ** [list.sort(key=..., reverse=True)] *)

(** The sort of Python is stable, also with [reverse=True]; a stable sort
    has one possible result, computed here by insertion. *)
Fixpoint insert_desc {A} (key : A → nat) (x : A) (l : list A) : list A :=
  match l with
  | [] => [x]
  | y :: r => if Nat.leb (key y) (key x) then x :: y :: r else y :: insert_desc key x r
  end.

Definition sort_desc {A} (key : A → nat) (l : list A) : list A :=
  foldr (insert_desc key) [] l.

(** ** The renamer *)

(** The mutable attributes of a [DirectoryRenamer] together with the file
    system it works on.  [base_dir] and [dry_run] never change after
    [__init__] and are passed as arguments. *)
Record State := {
  fs : FileSystem;
  renamed_dirs : list (Path * Path);
  skipped_dirs : list Path;
  error_dirs : list (Path * string);
  metadata_cache : gmap Path stat_result;
}.

(** [__init__]: empty ledgers, empty cache. *)
Definition init (tree : FileSystem) : State :=
  {| fs := tree; renamed_dirs := []; skipped_dirs := []; error_dirs := [];
     metadata_cache := ∅ |}.

Definition with_fs (tree : FileSystem) (s : State) : State :=
  {| fs := tree; renamed_dirs := renamed_dirs s; skipped_dirs := skipped_dirs s;
     error_dirs := error_dirs s; metadata_cache := metadata_cache s |}.

Definition with_cache (c : gmap Path stat_result) (s : State) : State :=
  {| fs := fs s; renamed_dirs := renamed_dirs s; skipped_dirs := skipped_dirs s;
     error_dirs := error_dirs s; metadata_cache := c |}.

(** [self.renamed_dirs.append(x)]. *)
Definition append_renamed (x : Path * Path) (s : State) : State :=
  {| fs := fs s; renamed_dirs := renamed_dirs s ++ [x]; skipped_dirs := skipped_dirs s;
     error_dirs := error_dirs s; metadata_cache := metadata_cache s |}.

(** [self.skipped_dirs.append(x)]. *)
Definition append_skipped (x : Path) (s : State) : State :=
  {| fs := fs s; renamed_dirs := renamed_dirs s; skipped_dirs := skipped_dirs s ++ [x];
     error_dirs := error_dirs s; metadata_cache := metadata_cache s |}.

(** [self.error_dirs.append(x)]. *)
Definition append_error (x : Path * string) (s : State) : State :=
  {| fs := fs s; renamed_dirs := renamed_dirs s; skipped_dirs := skipped_dirs s;
     error_dirs := error_dirs s ++ [x]; metadata_cache := metadata_cache s |}.

(** [save_metadata]: the cache is keyed by [str(dir_path)]. *)
Definition save_metadata (dir_path : Path) (s : State) : bool * State :=
  match os_stat (fs s) dir_path with
  | Some stat_info => (true, with_cache (<[dir_path := stat_info]> (metadata_cache s)) s)
  | None => (false, s)
  end.

(** [restore_metadata]: looks [str(dir_path)] up in the cache, then
    [chmod], [chown], [utime]; the first call that raises ends it, and what
    was applied before stays applied. *)
Definition restore_metadata (dir_path : Path) (s : State) : bool * State :=
  match metadata_cache s !! dir_path with
  | None => (false, s)
  | Some metadata =>
      match os_chmod (fs s) dir_path (st_mode metadata) with
      | Raise _ => (false, s)
      | Ok fs1 =>
          match os_chown fs1 dir_path (st_uid metadata) (st_gid metadata) with
          | Raise _ => (false, with_fs fs1 s)
          | Ok fs2 =>
              match os_utime fs2 dir_path (st_atime metadata) (st_mtime metadata) with
              | Raise _ => (false, with_fs fs2 s)
              | Ok fs3 => (true, with_fs fs3 s)
              end
          end
      end
  end.

(** [len(renamed_dirs) + len(skipped_dirs) + len(error_dirs)]. *)
Definition total_processed (s : State) : nat :=
  length (renamed_dirs s) + length (skipped_dirs s) + length (error_dirs s).

(** [validate_changes]: the loop returns at the first missing new path.
    The method does not read [self.dry_run]. *)
Definition validate_changes (s : State) : bool :=
  if negb (forallb (λ r : Path * Path, path_exists (fs s) r.2) (renamed_dirs s)) then false
  else if Nat.eqb (total_processed s) 0 then false
  else true.

Section Renamer.
Context {consts : Constants} {unicode : UnicodeData}.

(** The path a directory is to be renamed to: [parent_dir / new_name]. *)
Definition new_path_of (dir_path : Path) : Path :=
  parent dir_path ++ [standardize_apostrophes (name dir_path)].

Definition rename_directory (dry_run : bool) (dir_path : Path) (s : State) : bool * State :=
  let dir_name := name dir_path in
  if negb (needs_standardization dir_name) then
    (true, append_skipped dir_path s)
  else
    let new_path := new_path_of dir_path in
    if path_exists (fs s) new_path then
      (false, append_error (dir_path, "Destination already exists"%string) s)
    else
      let '(saved, s1) := save_metadata dir_path s in
      if negb saved then
        (false, append_error (dir_path, "Failed to save metadata"%string) s1)
      else if dry_run then
        (true, append_renamed (dir_path, new_path) s1)
      else
        match os_rename (fs s1) dir_path new_path with
        | Raise e => (false, append_error (dir_path, strerror e) s1)
        | Ok tree =>
            let '(_, s2) := restore_metadata new_path (with_fs tree s1) in
            (true, append_renamed (dir_path, new_path) s2)
        end.

(** [find_year_prefixed_dirs]. *)
Definition find_year_prefixed_dirs (base_dir : Path) (tree : FileSystem) : list Path :=
  filter (λ p, YEAR_PATTERN_match (name p) = true) (os_walk_dirs tree base_dir).

(** The first loop of [process_directories] builds this list. *)
Definition collect_all_dirs (tree : FileSystem) (year_dirs : list Path) : list Path :=
  flat_map (os_walk_dirs tree) year_dirs.

(** A [for] loop that calls [rename_directory] and drops what it returns. *)
Definition rename_each (dry_run : bool) (dirs : list Path) (s : State) : State :=
  foldl (λ st dir_path, (rename_directory dry_run dir_path st).2) s dirs.

(** The paths handed to [rename_directory] by [process_directories], in the
    order of the calls. *)
Definition visit_order (base_dir : Path) (tree : FileSystem) : list Path :=
  let year_dirs := find_year_prefixed_dirs base_dir tree in
  sort_desc parts_len (collect_all_dirs tree year_dirs) ++ year_dirs.

Definition process_directories (dry_run : bool) (base_dir : Path) (s : State) : State :=
  let year_dirs := find_year_prefixed_dirs base_dir (fs s) in
  let all_dirs := sort_desc parts_len (collect_all_dirs (fs s) year_dirs) in
  let s1 := rename_each dry_run all_dirs s in
  rename_each dry_run year_dirs s1.

(** [run]: what it returns, and the state it leaves. *)
Definition run (dry_run : bool) (base_dir : Path) (s : State) : bool * State :=
  let s' := process_directories dry_run base_dir s in
  (validate_changes s', s').

End Renamer.

(** ** Sample data *)

(** A directory with permission bits [0755]. *)
Definition dir_attrs : stat_result :=
  {| st_mode := 16877; st_uid := 1000; st_gid := 1000;
     st_atime := 1700000000; st_mtime := 1600000000; st_ctime := 1650000000 |}.

Definition path_of (parts : list string) : Path := of_ascii <$> parts.

Definition tree_of (dirs : list Path) : FileSystem :=
  list_to_map ((λ p, (p, dir_attrs)) <$> dirs).

(** [A's Room] with the plain mark and with the typographic mark. *)
Definition plain_room : str := of_ascii "A's Room".

Definition base : Path := path_of ["base"%string].



(** A year directory inside a year directory, three levels below the outer
    year root. *)
Definition nested_tree : FileSystem :=
  tree_of [ []; base; base ++ [of_ascii "2020"];
            base ++ [of_ascii "2020"; of_ascii "2021 A's"];
            base ++ [of_ascii "2020"; of_ascii "2021 A's"; of_ascii "x"];
            base ++ [of_ascii "2020"; of_ascii "2021 A's"; of_ascii "x"; of_ascii "y"] ].

(** Two year directories, one inside the other, both with a plain mark. *)
Definition stale_tree : FileSystem :=
  tree_of [ []; base; base ++ [of_ascii "2020 A's"];
            base ++ [of_ascii "2020 A's"; of_ascii "2021 B's"] ].

(** The name a directory ends up with after the classification and the
    transformation of [rename_directory]. *)
Definition name_after {consts : Constants} (dir_name : str) : str :=
  if needs_standardization dir_name then standardize_apostrophes dir_name else dir_name.

(** ** Invariants of a run *)

(** A check that can be run: every directory has its parent. *)
Definition parents_exist (tree : FileSystem) : bool :=
  forallb (λ p, path_exists tree (parent p)) (map_to_list tree).*1.

(** Two trees with the same directories, whatever their attributes. *)
Definition same_dirs (t1 t2 : FileSystem) : Prop :=
  ∀ p : Path, is_Some (t1 !! p) ↔ is_Some (t2 !! p).

(** [q] cannot be reached: on the way down to it a component is missing
    whose name the classifier accepts, below a directory that exists. *)
Definition cut_off {consts : Constants} (tree : FileSystem) (q : Path) : Prop :=
  ∃ m : Path, m `prefix_of` q ∧ tree !! m = None
    ∧ needs_standardization (name m) = true ∧ is_Some (tree !! parent m).

(** What holds between two calls of a run that is not simulated: the tree is
    well formed and every path that was renamed is cut off. *)
Definition run_inv {consts : Constants} (s : State) : Prop :=
  fs_wf (fs s) ∧ ∀ q : Path, q ∈ (renamed_dirs s).*1 → cut_off (fs s) q.


(** ** What a simulated run records *)

Section Simulated.
Context {consts : Constants}.



(** The calls recorded as skipped. *)
Definition not_eligible (visits : list Path) : list Path :=
  filter (λ p, needs_standardization (name p) = false) visits.

End Simulated.


(** ** The entry point *)

(** [main]: builds the renamer, runs it, and returns the exit status. *)
Definition main {consts : Constants} {unicode : UnicodeData}
    (dry_run : bool) (base_dir : Path) (tree : FileSystem) : Z :=
  if (run dry_run base_dir (init tree)).1 then 0%Z else 1%Z.

(** [a] stands before [d] in [l]. *)
Definition before {A} (l : list A) (a d : A) : Prop :=
  ∃ l1 l2 l3 : list A, l = l1 ++ a :: l2 ++ d :: l3.

(** [a] is an ancestor of [d]. *)
Definition above (a d : Path) : Prop := a `prefix_of` d ∧ a ≠ d.

#[export] Instance above_dec (a d : Path) : Decision (above a d).
Proof. unfold above. apply _. Defined.

(** How often [d] occurs in [l]. *)
Definition occurrences (d : Path) (l : list Path) : nat :=
  length (filter (λ p, p = d) l).


(** A tree in which [base] does not exist. *)
Definition no_base_tree : FileSystem := tree_of [ []; path_of ["other"%string] ].

(** * Properties *)

(** ** Strings *)

Lemma startswith_app (p x : str) : startswith p (p ++ x) = true.
Proof.
  induction p as [|a p IH]; simpl; [done|].
  by rewrite N.eqb_refl, IH.
Qed.

Lemma str_in_unfold (sub s : str) :
  str_in sub s = startswith sub s || match s with [] => false | _ :: s' => str_in sub s' end.
Proof. by destruct s. Qed.

Lemma str_in_prefix (sub x : str) : str_in sub (sub ++ x) = true.
Proof. rewrite str_in_unfold, startswith_app. done. Qed.

Lemma str_in_cons (sub : str) (c : char) (s : str) :
  str_in sub s = true → str_in sub (c :: s) = true.
Proof. intros Hs. rewrite str_in_unfold, Hs. apply orb_true_r. Qed.

Lemma str_in_app_r (sub x s : str) :
  str_in sub s = true → str_in sub (x ++ s) = true.
Proof. intros Hs. induction x as [|c x IH]; simpl app; [done|]. by apply str_in_cons. Qed.

Lemma str_in_nil (s : str) : str_in [] s = true.
Proof. by destruct s. Qed.

(** Nothing to replace: the string comes back as it is. *)
Lemma replace_scan_absent (old new s : str) :
  str_in old s = false → replace_scan old new 0 s = s.
Proof.
  induction s as [|c s IH]; [done|].
  rewrite str_in_unfold. intros [Hp Hs]%orb_false_elim.
  cbn [replace_scan]. rewrite Hp. f_equal. by apply IH.
Qed.

(** Something to replace: the replacement occurs in the result. *)
Lemma replace_scan_present (old new s : str) :
  str_in old s = true → s ≠ [] → str_in new (replace_scan old new 0 s) = true.
Proof.
  induction s as [|c s IH]; [done|]. intros Hin _.
  cbn [replace_scan]. destruct (startswith old (c :: s)) eqn:Hp.
  - apply str_in_prefix.
  - rewrite str_in_unfold, Hp in Hin. simpl in Hin.
    apply str_in_cons. apply IH; [done|].
    intros ->. destruct old; simpl in *; congruence.
Qed.

Lemma str_replace_absent (old new s : str) :
  str_in old s = false → str_replace old new s = s.
Proof.
  destruct old as [|a old]; [by rewrite str_in_nil|].
  apply replace_scan_absent.
Qed.

Lemma str_replace_present (old new s : str) :
  str_in old s = true → str_in new (str_replace old new s) = true.
Proof.
  destruct old as [|a old]; simpl str_replace.
  - intros _. apply str_in_prefix.
  - intros Hin. apply replace_scan_present; [done|]. by intros ->.
Qed.

(** With one-character strings [replace] works character by character. *)
Lemma str_replace_single (a b : char) (s : str) :
  str_replace [a] [b] s = (λ c, if N.eqb a c then b else c) <$> s.
Proof.
  simpl str_replace. induction s as [|c s IH]; [done|].
  cbn [replace_scan startswith length pred]. rewrite andb_true_r.
  rewrite fmap_cons. destruct (N.eqb a c); simpl; by rewrite IH.
Qed.

Lemma str_in_single (a : char) (s : str) : str_in [a] s = true ↔ a ∈ s.
Proof.
  induction s as [|c s IH]; [by rewrite elem_of_nil|].
  rewrite str_in_unfold, elem_of_cons, orb_true_iff, IH. simpl. rewrite andb_true_r.
  by rewrite N.eqb_eq.
Qed.

(** ** Names *)

Section NameProperties.
Context {consts : Constants}.

(** Whatever the two constants are, a transformed name is classified as not
    needing the transformation. *)
Lemma transformed_name_is_settled (dir_name : str) :
  needs_standardization (standardize_apostrophes dir_name) = false.
Proof.
  unfold needs_standardization, has_straight_apostrophe, has_typographic_apostrophe,
    standardize_apostrophes.
  destruct (str_in STRAIGHT_APOSTROPHE dir_name) eqn:Hin.
  - by rewrite (str_replace_present _ _ _ Hin), andb_false_r.
  - by rewrite (str_replace_absent _ _ _ Hin), Hin.
Qed.

(** C8. Running the classifier on a transformed name reports that it does
    not need standardization, and classifying and transforming a second time
    changes nothing.  This holds whichever values the two constants have and
    for every name, those that needed standardization among them. *)
Theorem classifier_idempotent (dir_name : str) :
  needs_standardization (standardize_apostrophes dir_name) = false
  ∧ needs_standardization (name_after dir_name) = false
  ∧ name_after (name_after dir_name) = name_after dir_name.
Proof.
  pose proof (transformed_name_is_settled dir_name) as Hs.
  split; [done|].
  assert (needs_standardization (name_after dir_name) = false) as Hn.
  { unfold name_after. by destruct (needs_standardization dir_name) eqn:E. }
  split; [done|].
  unfold name_after at 1. by rewrite Hn.
Qed.

End NameProperties.

(** With the constants of the comments the transformation is the map that
    sends U+0027 to U+2019 and keeps every other character. *)
Lemma standardize_documented_pointwise (dir_name : str) :
  standardize_apostrophes (consts := as_documented) dir_name
  = (λ c, if N.eqb U0027 c then U2019 else c) <$> dir_name.
Proof. apply str_replace_single. Qed.

(** With the constants of the comments: no plain mark is left, a
    typographic mark appears, and every other character keeps its place. *)
Lemma standardize_documented_spec (dir_name : str) :
  str_in [U0027] dir_name = true →
  let out := standardize_apostrophes (consts := as_documented) dir_name in
  str_in [U0027] out = false
  ∧ str_in [U2019] out = true
  ∧ length out = length dir_name
  ∧ ∀ (i : nat) (c : char), dir_name !! i = Some c → c ≠ U0027 → out !! i = Some c.
Proof.
  intros Hin out. subst out. rewrite standardize_documented_pointwise.
  repeat split.
  - apply not_true_is_false. rewrite str_in_single, list_elem_of_fmap.
    intros (c & Hc & _). destruct (N.eqb_spec U0027 c); [done|congruence].
  - apply str_in_single, list_elem_of_fmap. exists U0027. split; [done|].
    by apply str_in_single.
  - apply length_fmap.
  - intros i c Hi Hc. rewrite list_lookup_fmap, Hi.
    unfold fmap, option_fmap, option_map. cbv beta.
    destruct (N.eqb_spec U0027 c); congruence.
Qed.

(** With the constants of the comments the classifier accepts exactly the
    names with a plain mark and no typographic mark. *)
Lemma needs_documented_spec (dir_name : str) :
  needs_standardization (consts := as_documented) dir_name = true
  ↔ U0027 ∈ dir_name ∧ U2019 ∉ dir_name.
Proof.
  unfold needs_standardization, has_straight_apostrophe, has_typographic_apostrophe.
  simpl. rewrite andb_true_iff, negb_true_iff, <- !str_in_single.
  by rewrite not_true_iff_false.
Qed.

(** C3. The transformation of the program returns every name as it is: the
    replacement string is the literal of line 36, which is the plain mark.
    [A's Room] has a plain mark and no typographic mark, and so has the
    output. *)
Theorem standardize_as_written_changes_nothing :
  (∀ dir_name : str, standardize_apostrophes (consts := as_written) dir_name = dir_name)
  ∧ str_in [U0027] plain_room = true
  ∧ str_in [U2019] plain_room = false
  ∧ str_in [U0027] (standardize_apostrophes (consts := as_written) plain_room) = true
  ∧ str_in [U2019] (standardize_apostrophes (consts := as_written) plain_room) = false.
Proof.
  split; [|by vm_compute].
  intros dir_name. change (str_replace [U0027] [U0027] dir_name = dir_name).
  rewrite str_replace_single. induction dir_name as [|c l IH]; [done|].
  rewrite fmap_cons, IH. by destruct (N.eqb_spec U0027 c) as [->|].
Qed.

(** C4. The classifier of the program rejects every name: both tests look
    for the same character.  [A's Room] has a plain mark and no typographic
    mark and is classified as not needing standardization. *)
Theorem needs_as_written_always_false :
  (∀ dir_name : str, needs_standardization (consts := as_written) dir_name = false)
  ∧ str_in [U0027] plain_room = true
  ∧ str_in [U2019] plain_room = false
  ∧ needs_standardization (consts := as_written) plain_room = false.
Proof.
  split; [|by vm_compute].
  intros dir_name. unfold needs_standardization, has_straight_apostrophe,
    has_typographic_apostrophe. simpl. apply andb_negb_r.
Qed.

(** ** One call of [rename_directory] *)

Lemma path_exists_true (tree : FileSystem) (p : Path) :
  path_exists tree p = true ↔ is_Some (tree !! p).
Proof. unfold path_exists. apply bool_decide_eq_true. Qed.

Lemma path_exists_false (tree : FileSystem) (p : Path) :
  path_exists tree p = false ↔ tree !! p = None.
Proof.
  unfold path_exists. rewrite bool_decide_eq_false. symmetry. apply eq_None_not_Some.
Qed.

(** [restore_metadata] touches the file system only. *)
Lemma restore_metadata_keeps_ledgers (q : Path) (s : State) :
  let s' := (restore_metadata q s).2 in
  renamed_dirs s' = renamed_dirs s ∧ skipped_dirs s' = skipped_dirs s
  ∧ error_dirs s' = error_dirs s ∧ metadata_cache s' = metadata_cache s.
Proof. unfold restore_metadata. by repeat case_match. Qed.


Section CallProperties.
Context {consts : Constants} {unicode : UnicodeData}.

(** The three ways a call can end, by the ledger it appends to. *)
Lemma rename_directory_ledgers (dry_run : bool) (dir_path : Path) (s : State) :
  let s' := (rename_directory dry_run dir_path s).2 in
  (renamed_dirs s' = renamed_dirs s ++ [(dir_path, new_path_of dir_path)]
   ∧ skipped_dirs s' = skipped_dirs s ∧ error_dirs s' = error_dirs s)
  ∨ (renamed_dirs s' = renamed_dirs s
     ∧ skipped_dirs s' = skipped_dirs s ++ [dir_path] ∧ error_dirs s' = error_dirs s)
  ∨ (∃ reason : string, renamed_dirs s' = renamed_dirs s
     ∧ skipped_dirs s' = skipped_dirs s ∧ error_dirs s' = error_dirs s ++ [(dir_path, reason)]).
Proof.
  unfold rename_directory, save_metadata.
  destruct (needs_standardization (name dir_path)); simpl; [|by right; left].
  destruct (path_exists (fs s) (new_path_of dir_path)); simpl; [by right; right; eexists|].
  destruct (os_stat (fs s) dir_path) as [st|]; simpl; [|by right; right; eexists].
  destruct dry_run; simpl; [by left|].
  destruct (os_rename _ _ _) as [tree|e]; simpl; [|by right; right; eexists].
  match goal with |- context [restore_metadata ?q ?t] =>
    pose proof (restore_metadata_keeps_ledgers q t) as (Hr & Hk & He & _);
    destruct (restore_metadata q t) as [b s2] end.
  simpl in *. left. by rewrite Hr, Hk, He.
Qed.

Lemma rename_directory_total (dry_run : bool) (dir_path : Path) (s : State) :
  total_processed (rename_directory dry_run dir_path s).2 = S (total_processed s).
Proof.
  unfold total_processed.
  destruct (rename_directory_ledgers dry_run dir_path s)
    as [(-> & -> & ->)|[(-> & -> & ->)|(r & -> & -> & ->)]];
    rewrite ?length_app; simpl; lia.
Qed.

Lemma rename_each_total (dry_run : bool) (dirs : list Path) (s : State) :
  total_processed (rename_each dry_run dirs s) = total_processed s + length dirs.
Proof.
  unfold rename_each. revert s. induction dirs as [|p dirs IH]; intros s; simpl; [lia|].
  rewrite IH, rename_directory_total. lia.
Qed.

Lemma rename_each_app (dry_run : bool) (l1 l2 : list Path) (s : State) :
  rename_each dry_run (l1 ++ l2) s = rename_each dry_run l2 (rename_each dry_run l1 s).
Proof. unfold rename_each. apply foldl_app. Qed.

(** The two loops of [process_directories] are one pass over [visit_order]. *)
Lemma process_directories_visits (dry_run : bool) (base_dir : Path) (s : State) :
  process_directories dry_run base_dir s
  = rename_each dry_run (visit_order base_dir (fs s)) s.
Proof. unfold process_directories, visit_order. by rewrite rename_each_app. Qed.

(** C10. Every call of [rename_directory] appends exactly one entry to
    exactly one of the three ledgers and leaves the other two as they were;
    so the total that [validate_changes] and the summary compute grows by
    one with each call, and after [process_directories] it has grown by the
    number of calls made. *)
Theorem one_ledger_entry_per_attempt (dry_run : bool) (base_dir dir_path : Path) (s : State) :
  let s' := (rename_directory dry_run dir_path s).2 in
  ((renamed_dirs s' = renamed_dirs s ++ [(dir_path, new_path_of dir_path)]
    ∧ skipped_dirs s' = skipped_dirs s ∧ error_dirs s' = error_dirs s)
   ∨ (renamed_dirs s' = renamed_dirs s
      ∧ skipped_dirs s' = skipped_dirs s ++ [dir_path] ∧ error_dirs s' = error_dirs s)
   ∨ (∃ reason : string, renamed_dirs s' = renamed_dirs s
      ∧ skipped_dirs s' = skipped_dirs s
      ∧ error_dirs s' = error_dirs s ++ [(dir_path, reason)]))
  ∧ total_processed s' = S (total_processed s)
  ∧ total_processed (process_directories dry_run base_dir s)
    = total_processed s + length (visit_order base_dir (fs s))
  ∧ total_processed (run dry_run base_dir (init (fs s))).2
    = length (visit_order base_dir (fs s)).
Proof.
  split; [apply rename_directory_ledgers|].
  split; [apply rename_directory_total|].
  split.
  - by rewrite process_directories_visits, rename_each_total.
  - unfold run. simpl. by rewrite process_directories_visits, rename_each_total.
Qed.


End CallProperties.


(** ** Validation *)

(** What [validate_changes] decides, in any mode: every new path of the
    renamed ledger is on disk and something was processed. *)
Lemma validate_changes_spec (s : State) :
  validate_changes s = true
  ↔ (∀ r : Path * Path, r ∈ renamed_dirs s → path_exists (fs s) r.2 = true)
    ∧ total_processed s ≠ 0.
Proof.
  unfold validate_changes.
  destruct (forallb _ (renamed_dirs s)) eqn:Hall; simpl.
  - rewrite forallb_forall in Hall.
    destruct (Nat.eqb_spec (total_processed s) 0) as [Hz|Hz].
    + split; [done|]. by intros [_ ?].
    + split; [|done]. intros _. split; [|done].
      intros r Hr. by apply Hall, list_elem_of_In.
  - split; [done|]. intros [Hex _].
    assert (forallb (λ r : Path * Path, path_exists (fs s) r.2) (renamed_dirs s) = true)
      as Hall'; [|congruence].
    apply forallb_forall. intros r Hr. by apply Hex, list_elem_of_In.
Qed.


(** ** Metadata *)


(** ** Paths *)

Lemma name_snoc (p : Path) (n : str) : name (p ++ [n]) = n.
Proof. unfold name. by rewrite last_snoc. Qed.

Lemma parent_snoc (p : Path) (n : str) : parent (p ++ [n]) = p.
Proof. apply removelast_last. Qed.

Lemma path_snoc (p : Path) : p ≠ [] → p = parent p ++ [name p].
Proof.
  destruct p as [|n p _] using rev_ind; [done|]. intros _.
  by rewrite parent_snoc, name_snoc.
Qed.

(** The entries of [top] are the paths one component longer. *)
Lemma child_iff (top p : Path) : p ≠ [] ∧ parent p = top ↔ ∃ n : str, p = top ++ [n].
Proof.
  split.
  - intros [Hne <-]. exists (name p). by apply path_snoc.
  - intros [n ->]. split; [by destruct top|apply parent_snoc].
Qed.

Lemma prefix_snoc_inv (q p : Path) (n : str) :
  q `prefix_of` p ++ [n] → q = p ++ [n] ∨ q `prefix_of` p.
Proof.
  intros [k Hk]. destruct k as [|x k _] using rev_ind.
  - left. by rewrite app_nil_r in Hk.
  - right. rewrite app_assoc in Hk. apply app_inj_tail in Hk as [-> _]. by exists k.
Qed.

Lemma prefix_parent (p : Path) : parent p `prefix_of` p.
Proof.
  destruct p as [|n p _] using rev_ind; [done|].
  rewrite parent_snoc. by exists [n].
Qed.

(** A prefix of [a ++ b] ends inside [a] or inside [b]. *)
Lemma prefix_app_cases (q a b : Path) :
  q `prefix_of` a ++ b → q `prefix_of` a ∨ ∃ r, q = a ++ r ∧ r `prefix_of` b.
Proof.
  intros Hq. destruct (prefix_weak_total q a (a ++ b) Hq) as [?|[r ->]]; [by exists b|by left|].
  right. exists r. split; [done|]. by apply prefix_app_inv in Hq.
Qed.

(** ** The file system *)

Lemma list_to_map_is_Some {A} (l : list (Path * A)) (p : Path) :
  is_Some ((list_to_map l : gmap Path A) !! p) ↔ p ∈ l.*1.
Proof.
  rewrite <- not_eq_None_Some, <- not_elem_of_list_to_map.
  split; [apply dec_stable|by intros ??].
Qed.

(** Which directories exist after a move. *)
Lemma move_tree_is_Some (tree : FileSystem) (src dst p : Path) :
  is_Some (move_tree tree src dst !! p)
  ↔ (∃ r, p = dst ++ r ∧ is_Some (tree !! (src ++ r)))
    ∨ (is_Some (tree !! p) ∧ ¬ src `prefix_of` p).
Proof.
  unfold move_tree. rewrite lookup_union_is_Some, list_to_map_is_Some.
  apply Morphisms_Prop.or_iff_morphism.
  - rewrite <- list_fmap_compose, list_elem_of_fmap. split.
    + intros ([k st] & -> & Hk).
      apply elem_of_map_to_list, map_lookup_filter_Some in Hk as [Hk Hpre].
      simpl in Hpre. destruct Hpre as [r ->]. simpl. exists r. unfold relocate.
      rewrite drop_app_length. eauto.
    + intros (r & -> & [st Hst]). exists (src ++ r, st). split.
      * simpl. unfold relocate. by rewrite drop_app_length.
      * apply elem_of_map_to_list, map_lookup_filter_Some. split; [done|]. by exists r.
  - split.
    + intros [st [Hst Hn]%map_lookup_filter_Some]. split; [by exists st|done].
    + intros [[st Hst] Hn]. exists st. by apply map_lookup_filter_Some.
Qed.

(** What a successful rename to another path tells about the tree before. *)
Lemma os_rename_Ok (tree tree' : FileSystem) (src dst : Path) :
  os_rename tree src dst = Ok tree' → src ≠ dst →
  is_Some (tree !! src) ∧ is_Some (tree !! parent dst)
  ∧ ¬ src `prefix_of` dst ∧ tree' = move_tree tree src dst.
Proof.
  unfold os_rename. intros Hok Hne.
  destruct (path_exists tree src) eqn:Hsrc; simpl in Hok; [|done].
  rewrite bool_decide_eq_false_2 in Hok by done.
  destruct (path_exists tree (parent dst)) eqn:Hpar; simpl in Hok; [|done].
  destruct (bool_decide (src `prefix_of` dst)) eqn:Hpre; [done|].
  destruct (path_exists tree dst && has_children tree dst); [done|].
  apply path_exists_true in Hsrc, Hpar. apply bool_decide_eq_false in Hpre.
  by inversion Hok.
Qed.

(** A move keeps a well-formed tree well formed. *)
Lemma move_tree_wf (tree : FileSystem) (src dst : Path) :
  fs_wf tree → is_Some (tree !! parent dst) → ¬ src `prefix_of` dst →
  fs_wf (move_tree tree src dst).
Proof.
  intros Hwf Hpar Hnp p q Hp Hq. apply move_tree_is_Some in Hp. apply move_tree_is_Some.
  destruct Hp as [(r & -> & Hr)|[Hp Hnot]].
  - destruct (prefix_app_cases _ _ _ Hq) as [Hqd|(r' & -> & Hr')].
    + destruct (decide (q = dst)) as [->|Hne].
      * left. exists []. rewrite !app_nil_r. split; [done|].
        apply (Hwf (src ++ r)); [done|]. by exists r.
      * right. assert (q `prefix_of` parent dst) as Hqp.
        { destruct dst as [|n d _] using rev_ind.
          - by apply prefix_nil_inv in Hqd.
          - rewrite parent_snoc. by destruct (prefix_snoc_inv _ _ _ Hqd). }
        split; [by apply (Hwf (parent dst))|].
        intros Hsq. apply Hnp. by etrans.
    + left. exists r'. split; [done|]. apply (Hwf (src ++ r)); [done|]. by apply prefix_app.
  - right. split; [by apply (Hwf p)|]. intros Hsq. apply Hnot. by etrans.
Qed.

(** [chmod], [chown] and [utime] create and remove nothing. *)
Lemma restore_metadata_is_Some (q p : Path) (s : State) :
  is_Some (fs (restore_metadata q s).2 !! p) ↔ is_Some (fs s !! p).
Proof.
  unfold restore_metadata, os_chmod, os_chown, os_utime.
  assert (∀ (t : FileSystem) (st st' : stat_result), t !! q = Some st →
            is_Some (<[q:=st']> t !! p) ↔ is_Some (t !! p)) as Hins.
  { intros t st st' Hq. rewrite lookup_insert_is_Some'.
    split; [intros [<-|?]; [by exists st|done]|by right]. }
  destruct (metadata_cache s !! q) as [md|]; [|done].
  destruct (fs s !! q) as [st0|] eqn:H0; [|done]. simpl.
  rewrite lookup_insert_eq. simpl. rewrite lookup_insert_eq. simpl.
  rewrite !(Hins _ _ _ (lookup_insert_eq _ _ _)). by apply (Hins _ st0).
Qed.

Lemma parents_exist_wf (tree : FileSystem) : parents_exist tree = true → fs_wf tree.
Proof.
  unfold parents_exist. rewrite forallb_forall. intros Hall p q Hp [k ->].
  induction k as [|x k IH] using rev_ind.
  - by rewrite app_nil_r in Hp.
  - apply IH. rewrite app_assoc in Hp. destruct Hp as [st Hst].
    specialize (Hall ((q ++ k) ++ [x])). rewrite parent_snoc in Hall.
    apply path_exists_true, Hall, list_elem_of_In, list_elem_of_fmap.
    exists ((q ++ k) ++ [x], st). split; [done|]. by apply elem_of_map_to_list.
Qed.

Lemma same_dirs_wf (t1 t2 : FileSystem) : same_dirs t1 t2 → fs_wf t1 → fs_wf t2.
Proof. intros Hs Hwf p q Hp Hq. apply Hs. apply (Hwf p); [by apply Hs|done]. Qed.

(** ** A directory is renamed once *)

Section RenamedOnce.
Context {consts : Constants} {unicode : UnicodeData}.

Lemma same_dirs_cut_off (t1 t2 : FileSystem) (q : Path) :
  same_dirs t1 t2 → cut_off t1 q → cut_off t2 q.
Proof.
  intros Hs (m & Hm & Hnone & Hn & Hpar). exists m. repeat split; [done| |done|by apply Hs].
  apply eq_None_not_Some. intros ?%Hs. by apply eq_None_not_Some in Hnone.
Qed.

(** In a well-formed tree nothing exists that is cut off. *)
Lemma cut_off_missing (tree : FileSystem) (q : Path) :
  fs_wf tree → cut_off tree q → tree !! q = None.
Proof.
  intros Hwf (m & Hm & Hnone & _). apply eq_None_not_Some. intros Hq.
  apply eq_None_not_Some in Hnone. apply Hnone. by apply (Hwf q).
Qed.

(** The move that [rename_directory] makes cuts its source off and keeps
    cut off what was. *)
Lemma move_tree_cut_off (tree : FileSystem) (src q : Path) :
  fs_wf tree → is_Some (tree !! src) → tree !! new_path_of src = None → src ≠ [] →
  needs_standardization (name src) = true →
  let tree' := move_tree tree src (new_path_of src) in
  cut_off tree' src ∧ (cut_off tree q → cut_off tree' q).
Proof.
  intros Hwf Hsrc Hdst Hne Hneeds tree'.
  assert (length (new_path_of src) = length src) as Hlen.
  { rewrite (path_snoc src Hne) at 2. unfold new_path_of. by rewrite !length_app. }
  assert (is_Some (tree' !! parent src)) as Hpar.
  { apply move_tree_is_Some. right. split; [apply (Hwf src); [done|apply prefix_parent]|].
    intros Hp%prefix_length. rewrite (path_snoc src Hne) in Hp at 1.
    rewrite length_app in Hp. simpl in Hp. lia. }
  assert (tree' !! src = None) as Hgone.
  { apply eq_None_not_Some. intros [(r & Hr & _)|[_ Hn]]%move_tree_is_Some; [|by apply Hn].
    assert (r = []) as ->.
    { apply (f_equal length) in Hr. rewrite length_app, Hlen in Hr.
      apply length_zero_iff_nil. lia. }
    rewrite app_nil_r in Hr. rewrite <- Hr in Hdst. by destruct Hsrc; simplify_eq. }
  assert (cut_off tree' src) as Hcut by (by exists src).
  split; [done|]. intros (m & Hm & Hnone & Hn & Hpm).
  destruct (decide (src `prefix_of` parent m)) as [Hsp|Hsp].
  - destruct Hcut as (m' & Hm' & ?). exists m'. split; [|done].
    etrans; [done|]. etrans; [done|]. etrans; [apply prefix_parent|done].
  - exists m. repeat split; [done| |done|].
    + apply eq_None_not_Some.
      intros [(r & -> & _)|[Hex _]]%move_tree_is_Some;
        [|by apply eq_None_not_Some in Hnone].
      destruct r as [|n r _] using rev_ind.
      * rewrite app_nil_r in Hn. unfold new_path_of in Hn.
        rewrite name_snoc, transformed_name_is_settled in Hn. done.
      * rewrite app_assoc, parent_snoc in Hpm.
        apply eq_None_not_Some in Hdst. apply Hdst.
        apply (Hwf (new_path_of src ++ r)); [done|]. by exists r.
    + apply move_tree_is_Some. by right.
Qed.

(** A call that is not simulated keeps the invariant and renames no path a
    second time. *)
Lemma rename_directory_inv (dir_path : Path) (s : State) :
  run_inv s → NoDup (renamed_dirs s).*1 →
  let s' := (rename_directory false dir_path s).2 in
  run_inv s' ∧ NoDup (renamed_dirs s').*1.
Proof.
  intros [Hwf Hcut] Hnd. unfold rename_directory, save_metadata.
  destruct (needs_standardization (name dir_path)) eqn:Hneeds; simpl; [|done].
  destruct (path_exists (fs s) (new_path_of dir_path)) eqn:Hdst; simpl; [done|].
  apply path_exists_false in Hdst.
  destruct (os_stat (fs s) dir_path) as [st|] eqn:Hstat; simpl; [|done].
  unfold os_stat in Hstat.
  destruct (os_rename (fs s) dir_path (new_path_of dir_path)) as [tree|e] eqn:Hren;
    simpl; [|done].
  assert (dir_path ≠ new_path_of dir_path) as Hdiff by (intros E; rewrite <- E in Hdst; congruence).
  destruct (os_rename_Ok _ _ _ _ Hren Hdiff) as (_ & _ & Hnp & ->).
  assert (dir_path ≠ []) as Hne by (intros ->; apply Hnp, prefix_nil).
  match goal with |- context [restore_metadata ?q ?t] =>
    pose proof (restore_metadata_keeps_ledgers q t) as (Hr & _);
    pose proof (λ p, restore_metadata_is_Some q p t) as Hsame;
    destruct (restore_metadata q t) as [b s2] end.
  simpl in Hr, Hsame |- *.
  destruct (move_tree_cut_off (fs s) dir_path dir_path Hwf (mk_is_Some _ _ Hstat) Hdst Hne Hneeds)
    as [Hsrc _].
  assert (same_dirs (move_tree (fs s) dir_path (new_path_of dir_path)) (fs s2)) as Hsd
    by (intros p; symmetry; apply Hsame).
  split; [split|]; simpl.
  - apply (same_dirs_wf _ _ Hsd). apply move_tree_wf; [done| |done].
    unfold new_path_of. rewrite parent_snoc. apply (Hwf dir_path); [by eexists|apply prefix_parent].
  - rewrite Hr, fmap_app. intros q [Hq|Hq]%elem_of_app; apply (same_dirs_cut_off _ _ _ Hsd).
    + by apply (move_tree_cut_off (fs s) dir_path q Hwf (mk_is_Some _ _ Hstat) Hdst Hne Hneeds), Hcut.
    + simpl in Hq. apply list_elem_of_singleton in Hq as ->. done.
  - rewrite Hr, fmap_app. simpl. apply NoDup_app. split; [done|]. split; [|apply NoDup_singleton].
    intros q Hq ->%list_elem_of_singleton.
    apply Hcut, (cut_off_missing _ _ Hwf) in Hq. congruence.
Qed.

Lemma rename_each_inv (dirs : list Path) (s : State) :
  run_inv s → NoDup (renamed_dirs s).*1 →
  run_inv (rename_each false dirs s) ∧ NoDup (renamed_dirs (rename_each false dirs s)).*1.
Proof.
  unfold rename_each. revert s. induction dirs as [|p dirs IH]; intros s Hinv Hnd; [done|].
  simpl. destruct (rename_directory_inv p s Hinv Hnd). by apply IH.
Qed.

(** A simulated call leaves the tree alone. *)
Lemma rename_directory_dry_fs (dir_path : Path) (s : State) :
  fs (rename_directory true dir_path s).2 = fs s.
Proof.
  unfold rename_directory, save_metadata.
  destruct (needs_standardization _); simpl; [|done].
  destruct (path_exists _ _); simpl; [done|].
  by destruct (os_stat _ _).
Qed.

Lemma rename_each_dry_fs (dirs : list Path) (s : State) :
  fs (rename_each true dirs s) = fs s.
Proof.
  unfold rename_each. revert s. induction dirs as [|p dirs IH]; intros s; [done|].
  simpl. by rewrite IH, rename_directory_dry_fs.
Qed.

(** Only a name the classifier accepts gets into the renamed ledger. *)
Lemma rename_directory_renamed_needs (dry_run : bool) (dir_path : Path) (s : State) :
  renamed_dirs (rename_directory dry_run dir_path s).2 ≠ renamed_dirs s →
  needs_standardization (name dir_path) = true.
Proof.
  unfold rename_directory. by destruct (needs_standardization (name dir_path)).
Qed.

(** Every entry of the renamed ledger pairs a path whose name the
    classifier accepts with the path [rename_directory] computes for it. *)
Lemma rename_each_entries (dry_run : bool) (dirs : list Path) (s : State) :
  (∀ r : Path * Path, r ∈ renamed_dirs s →
     needs_standardization (name r.1) = true ∧ r.2 = new_path_of r.1) →
  ∀ r : Path * Path, r ∈ renamed_dirs (rename_each dry_run dirs s) →
    needs_standardization (name r.1) = true ∧ r.2 = new_path_of r.1.
Proof.
  unfold rename_each. revert s. induction dirs as [|p dirs IH]; intros s Hs; [done|].
  simpl. apply IH. intros r.
  pose proof (rename_directory_renamed_needs dry_run p s) as Hneeds.
  destruct (rename_directory_ledgers dry_run p s) as [(E & _)|[(E & _)|(? & E & _)]];
    rewrite E in Hneeds |- *; [|by apply Hs..].
  intros [Hr|Hr%list_elem_of_singleton]%elem_of_app; [by apply Hs|].
  subst r. simpl. split; [|done]. apply Hneeds.
  intros E'. apply (f_equal length) in E'. rewrite length_app in E'. simpl in E'. lia.
Qed.

(** C9. In one run every path is the source of at most one rename, however
    often the loops visit it.  When the run is not simulated the old paths of
    the renamed ledger, one per rename made, are pairwise different, and no
    new path is renamed again: the classifier rejects its name.  When the
    run is simulated no rename is made at all and the tree stays as it
    was. *)
Theorem renamed_at_most_once (base_dir : Path) (tree : FileSystem) :
  fs_wf tree →
  let s' := process_directories false base_dir (init tree) in
  NoDup (renamed_dirs s').*1
  ∧ (∀ r r' : Path * Path, r ∈ renamed_dirs s' → r' ∈ renamed_dirs s' → r'.1 ≠ r.2)
  ∧ fs (process_directories true base_dir (init tree)) = tree.
Proof.
  intros Hwf s'. subst s'. rewrite !process_directories_visits. split; [|split].
  - apply rename_each_inv; simpl.
    + split; [done|]. by intros q ?%elem_of_nil.
    + apply NoDup_nil_2.
  - intros r r' Hr Hr' E.
    assert (∀ x : Path * Path, x ∈ renamed_dirs (init tree) →
              needs_standardization (name x.1) = true ∧ x.2 = new_path_of x.1) as Hinit
      by (by intros x ?%elem_of_nil).
    destruct (rename_each_entries _ _ _ Hinit r Hr) as [_ Hnew].
    destruct (rename_each_entries _ _ _ Hinit r' Hr') as [Hneeds _].
    rewrite E, Hnew in Hneeds. unfold new_path_of in Hneeds.
    by rewrite name_snoc, transformed_name_is_settled in Hneeds.
  - by rewrite rename_each_dry_fs.
Qed.

End RenamedOnce.

(** The nested year directory is visited twice and renamed once; the second
    visit finds the destination taken. *)
Lemma renamed_at_most_once_witness :
  let s := process_directories (consts := as_documented) (unicode := ascii_digits)
             false base (init nested_tree) in
  fs_wf nested_tree
  ∧ NoDup (renamed_dirs s).*1
  ∧ (∀ r r' : Path * Path, r ∈ renamed_dirs s → r' ∈ renamed_dirs s → r'.1 ≠ r.2)
  ∧ fs (process_directories (consts := as_documented) (unicode := ascii_digits)
          true base (init nested_tree)) = nested_tree.
Proof.
  intros s.
  assert (fs_wf nested_tree) as Hwf by (apply parents_exist_wf; vm_compute; reflexivity).
  split; [exact Hwf|].
  exact (renamed_at_most_once (consts := as_documented) (unicode := ascii_digits) base nested_tree Hwf).
Defined.

Example nested_year_dir_twice_visited_once_renamed :
  let twice := base ++ [of_ascii "2020"; of_ascii "2021 A's"] in
  let s := process_directories (consts := as_documented) (unicode := ascii_digits)
             false base (init nested_tree) in
  length (filter (λ p, p = twice) (visit_order (unicode := ascii_digits) base nested_tree)) = 2
  ∧ (renamed_dirs s).*1 = [twice]
  ∧ error_dirs s = [(twice, "Destination already exists"%string)].
Proof. by vm_compute. Qed.

(** ** A simulated run *)

Section SimulatedRun.
Context {consts : Constants} {unicode : UnicodeData}.


End SimulatedRun.

(** ** The walk *)

Lemma elem_of_keys (tree : FileSystem) (p : Path) :
  p ∈ (map_to_list tree).*1 ↔ is_Some (tree !! p).
Proof.
  rewrite list_elem_of_fmap. split.
  - intros ([k st] & -> & Hk). apply elem_of_map_to_list in Hk. by exists st.
  - intros [st Hst]. exists (p, st). split; [done|]. by apply elem_of_map_to_list.
Qed.

Lemma elem_of_flat_map {A B} (f : A → list B) (l : list A) (y : B) :
  y ∈ flat_map f l ↔ ∃ x, x ∈ l ∧ y ∈ f x.
Proof.
  rewrite list_elem_of_In, in_flat_map. setoid_rewrite list_elem_of_In. done.
Qed.

Lemma scandir_elem (tree : FileSystem) (top p : Path) :
  p ∈ scandir tree top
  ↔ is_Some (tree !! top) ∧ is_Some (tree !! p) ∧ ∃ n : str, p = top ++ [n].
Proof.
  unfold scandir. destruct (path_exists tree top) eqn:Htop.
  - apply path_exists_true in Htop.
    rewrite list_elem_of_filter, child_iff, elem_of_keys. tauto.
  - apply path_exists_false in Htop. rewrite elem_of_nil. split; [done|].
    intros [[? ?] _]. congruence.
Qed.

(** The walk of [top] lists existing directories strictly below [top]. *)
Lemma walk_dirs_sound (fuel : nat) (tree : FileSystem) (top p : Path) :
  p ∈ walk_dirs fuel tree top →
  is_Some (tree !! p) ∧ top `prefix_of` p ∧ length top < length p.
Proof.
  revert top. induction fuel as [|fuel IH]; intros top; simpl; [by intros ?%elem_of_nil|].
  rewrite elem_of_app, elem_of_flat_map.
  intros [Hp|(c & Hc & Hp)].
  - apply scandir_elem in Hp as (_ & Hp & n & ->).
    split; [done|]. split; [by exists [n]|]. rewrite length_app. simpl. lia.
  - apply scandir_elem in Hc as (_ & _ & n & ->).
    apply IH in Hp as (Hp & Hpre & Hlen). split; [done|]. split.
    + etrans; [|done]. by exists [n].
    + rewrite length_app in Hlen. simpl in Hlen. lia.
Qed.

(** With enough fuel the walk of [top] lists every directory strictly below
    [top] of a well-formed tree. *)
Lemma walk_dirs_complete (fuel : nat) (tree : FileSystem) (top p : Path) :
  fs_wf tree → is_Some (tree !! p) → top `prefix_of` p → top ≠ p →
  length p ≤ length top + fuel →
  p ∈ walk_dirs fuel tree top.
Proof.
  intros Hwf Hp. revert top. induction fuel as [|fuel IH]; intros top [k ->] Hne Hlen.
  - rewrite length_app in Hlen. destruct k; [by rewrite app_nil_r in Hne|simpl in Hlen; lia].
  - destruct k as [|n k]; [by rewrite app_nil_r in Hne|].
    assert (top ++ [n] ∈ scandir tree top) as Hchild.
    { apply scandir_elem. split; [|split; [|by exists n]].
      - apply (Hwf (top ++ n :: k)); [done|]. by exists (n :: k).
      - apply (Hwf (top ++ n :: k)); [done|]. apply prefix_app. by exists k. }
    simpl. rewrite elem_of_app, elem_of_flat_map.
    destruct k as [|n' k]; [by left|]. right. exists (top ++ [n]). split; [done|].
    apply IH.
    + exists (n' :: k). by rewrite <- app_assoc.
    + intros E. apply (f_equal length) in E. rewrite !length_app in E. simpl in E. lia.
    + rewrite !length_app in *. simpl in *. lia.
Qed.

Lemma depth_bound_le (tree : FileSystem) (p : Path) :
  is_Some (tree !! p) → length p ≤ depth_bound tree.
Proof.
  intros Hp. apply max_list_elem_of_le, list_elem_of_fmap. exists p. split; [done|].
  by apply elem_of_keys.
Qed.

Lemma os_walk_dirs_sound (tree : FileSystem) (top p : Path) :
  p ∈ os_walk_dirs tree top →
  is_Some (tree !! p) ∧ top `prefix_of` p ∧ length top < length p.
Proof. apply walk_dirs_sound. Qed.

Lemma os_walk_dirs_complete (tree : FileSystem) (top p : Path) :
  fs_wf tree → is_Some (tree !! p) → top `prefix_of` p → top ≠ p →
  p ∈ os_walk_dirs tree top.
Proof.
  intros Hwf Hp Hpre Hne. apply walk_dirs_complete; try done.
  pose proof (depth_bound_le tree p Hp). lia.
Qed.

(** ** The sort *)

Section Sort.
Context {A : Type} (key : A → nat).

Lemma insert_desc_perm (x : A) (l : list A) : insert_desc key x l ≡ₚ x :: l.
Proof.
  induction l as [|y l IH]; simpl; [done|].
  destruct (Nat.leb (key y) (key x)); [done|]. by rewrite IH, Permutation_swap.
Qed.

Lemma sort_desc_perm (l : list A) : sort_desc key l ≡ₚ l.
Proof.
  unfold sort_desc. induction l as [|x l IH]; simpl; [done|].
  by rewrite insert_desc_perm, IH.
Qed.

Lemma insert_desc_sorted (x : A) (l : list A) :
  StronglySorted (λ a b, key b ≤ key a) l →
  StronglySorted (λ a b, key b ≤ key a) (insert_desc key x l).
Proof.
  induction l as [|y l IH]; simpl; intros Hs.
  - by repeat constructor.
  - apply StronglySorted_cons in Hs as [Hy Hs].
    destruct (Nat.leb_spec (key y) (key x)) as [Hle|Hlt].
    + apply StronglySorted_cons. split; [|by apply StronglySorted_cons].
      constructor; [done|]. eapply Forall_impl; [done|]. simpl. intros; lia.
    + apply StronglySorted_cons. split; [|by apply IH].
      rewrite insert_desc_perm. constructor; [lia|done].
Qed.

Lemma sort_desc_sorted (l : list A) :
  StronglySorted (λ a b, key b ≤ key a) (sort_desc key l).
Proof.
  unfold sort_desc. induction l as [|x l IH]; simpl; [constructor|].
  by apply insert_desc_sorted.
Qed.

(** Stability: elements with the same key keep their order. *)
Lemma insert_desc_stable (k : nat) (x : A) (l : list A) :
  StronglySorted (λ a b, key b ≤ key a) l →
  filter (λ a, key a = k) (insert_desc key x l) = filter (λ a, key a = k) (x :: l).
Proof.
  induction l as [|y l IH]; simpl; intros Hs; [done|].
  apply StronglySorted_cons in Hs as [Hy Hs].
  destruct (Nat.leb_spec (key y) (key x)) as [Hle|Hlt]; [done|].
  rewrite filter_cons, (IH Hs), !filter_cons.
  repeat case_decide; try done; lia.
Qed.

Lemma sort_desc_stable (k : nat) (l : list A) :
  filter (λ a, key a = k) (sort_desc key l) = filter (λ a, key a = k) l.
Proof.
  unfold sort_desc. induction l as [|x l IH]; simpl; [done|].
  rewrite insert_desc_stable by apply sort_desc_sorted.
  by rewrite !filter_cons, <- IH.
Qed.

End Sort.

(** ** The order of the calls *)

Section Order.
Context {consts : Constants} {unicode : UnicodeData}.






End Order.


(** The calls on that tree: [y], [x], the nested year directory, then the
    two year directories, the outer one first. *)
Example nested_tree_visit_order :
  let outer := base ++ [of_ascii "2020"] in
  let inner := outer ++ [of_ascii "2021 A's"] in
  visit_order (unicode := ascii_digits) base nested_tree
  = [ inner ++ [of_ascii "x"; of_ascii "y"]; inner ++ [of_ascii "x"; of_ascii "y"];
      inner ++ [of_ascii "x"]; inner ++ [of_ascii "x"]; inner; outer; inner ].
Proof. by vm_compute. Qed.


(** ** The attributes after a rename *)


Section Snapshot.
Context {consts : Constants}.


End Snapshot.

(** ** Further runs *)

(** A name with a typographic mark is left alone, whatever else it has. *)
Lemma mixed_name_not_standardized {consts : Constants} (dir_name : str) :
  has_typographic_apostrophe dir_name = true → needs_standardization dir_name = false.
Proof. intros Ht. unfold needs_standardization. rewrite Ht. apply andb_false_r. Qed.

(** A capture that fails in a run: the outer year directory is renamed in
    the last loop, and the inner one, renamed in the first loop, is then
    visited under a path that is gone. *)
Example stale_path_capture_failure :
  let outer := base ++ [of_ascii "2020 A's"] in
  let inner := outer ++ [of_ascii "2021 B's"] in
  let s := process_directories (consts := as_documented) (unicode := ascii_digits)
             false base (init stale_tree) in
  visit_order (unicode := ascii_digits) base stale_tree = [inner; outer; inner]
  ∧ (renamed_dirs s).*1 = [inner; outer]
  ∧ error_dirs s = [(inner, "Failed to save metadata"%string)].
Proof. by vm_compute. Qed.


(** * Further properties of the methods *)

(** ** [save_metadata] and [restore_metadata] *)


Lemma with_fs_same (s : State) : with_fs (fs s) s = s.
Proof. by destruct s. Qed.






(** ** What the walk finds *)

Lemma scandir_NoDup (tree : FileSystem) (top : Path) : NoDup (scandir tree top).
Proof.
  unfold scandir. destruct (path_exists tree top); [|apply NoDup_nil_2].
  apply NoDup_filter, NoDup_fst_map_to_list.
Qed.

Lemma NoDup_flat_map {A B} (f : A → list B) (l : list A) :
  NoDup l → (∀ x, x ∈ l → NoDup (f x)) →
  (∀ x y z, x ∈ l → y ∈ l → z ∈ f x → z ∈ f y → x = y) →
  NoDup (flat_map f l).
Proof.
  induction l as [|a l IH]; intros Hnd Hf Hdisj; simpl; [apply NoDup_nil_2|].
  apply NoDup_cons in Hnd as [Ha Hnd]. apply NoDup_app. split; [|split].
  - apply Hf. by left.
  - intros z Hz (y & Hy & Hzy)%elem_of_flat_map.
    apply Ha. rewrite (Hdisj a y z); [done|by left|by right|done|done].
  - apply IH; [done| |].
    + intros x Hx. apply Hf. by right.
    + intros x y z Hx Hy. apply Hdisj; by right.
Qed.

(** The walk lists no directory twice. *)
Lemma walk_dirs_NoDup (fuel : nat) (tree : FileSystem) (top : Path) :
  NoDup (walk_dirs fuel tree top).
Proof.
  revert top. induction fuel as [|fuel IH]; intros top; simpl; [apply NoDup_nil_2|].
  apply NoDup_app. split; [apply scandir_NoDup|]. split.
  - intros p Hp (c & Hc & Hpc)%elem_of_flat_map.
    apply scandir_elem in Hp as (_ & _ & n & ->).
    apply scandir_elem in Hc as (_ & _ & n' & ->).
    apply walk_dirs_sound in Hpc as (_ & _ & Hlen).
    rewrite !length_app in Hlen. simpl in Hlen. lia.
  - apply NoDup_flat_map; [apply scandir_NoDup|by intros|].
    intros x y z Hx Hy Hzx Hzy.
    apply scandir_elem in Hx as (_ & _ & n & ->).
    apply scandir_elem in Hy as (_ & _ & n' & ->).
    apply walk_dirs_sound in Hzx as (_ & [k ->] & _).
    apply walk_dirs_sound in Hzy as (_ & [k' E] & _).
    rewrite <- !app_assoc in E. apply app_inv_head in E. by injection E as ->.
Qed.

(** A walk from a directory that does not exist lists nothing. *)
Lemma os_walk_dirs_missing (tree : FileSystem) (top : Path) :
  tree !! top = None → os_walk_dirs tree top = [].
Proof.
  intros Htop. unfold os_walk_dirs. simpl. unfold scandir.
  by rewrite (proj2 (path_exists_false tree top) Htop).
Qed.

Lemma before_app_r {A} (l l' : list A) (a d : A) : before l' a d → before (l ++ l') a d.
Proof. intros (l1 & l2 & l3 & ->). exists (l ++ l1), l2, l3. by rewrite <- app_assoc. Qed.

Lemma before_app_l {A} (l l' : list A) (a d : A) : before l a d → before (l ++ l') a d.
Proof.
  intros (l1 & l2 & l3 & ->). exists l1, l2, (l3 ++ l').
  by simplify_list_eq.
Qed.

Lemma before_app_lr {A} (l l' : list A) (a d : A) : a ∈ l → d ∈ l' → before (l ++ l') a d.
Proof.
  intros (l1 & l2 & ->)%list_elem_of_split (k1 & k2 & ->)%list_elem_of_split.
  exists l1, (l2 ++ k1), k2. by simplify_list_eq.
Qed.

Lemma before_flat_map {A B} (f : A → list B) (l : list A) (x : A) (a d : B) :
  x ∈ l → before (f x) a d → before (flat_map f l) a d.
Proof.
  intros (l1 & l2 & ->)%list_elem_of_split Hb.
  rewrite flat_map_app. simpl. by apply before_app_r, before_app_l.
Qed.

Lemma before_filter {A} (P : A → Prop) `{!∀ x, Decision (P x)} (l : list A) (a d : A) :
  P a → P d → before l a d → before (filter P l) a d.
Proof.
  intros Ha Hd (l1 & l2 & l3 & ->).
  exists (filter P l1), (filter P l2), (filter P l3).
  rewrite filter_app, filter_cons_True, filter_app, filter_cons_True by done. done.
Qed.

(** The walk is top-down: a directory is listed before everything below it. *)
Lemma walk_dirs_top_down (fuel : nat) (tree : FileSystem) (top a d : Path) :
  a ∈ walk_dirs fuel tree top → d ∈ walk_dirs fuel tree top → above a d →
  before (walk_dirs fuel tree top) a d.
Proof.
  revert top. induction fuel as [|fuel IH]; intros top; simpl; [by intros ?%elem_of_nil|].
  rewrite !elem_of_app, !elem_of_flat_map. intros Ha Hd [[r ->] Hne].
  assert (r ≠ []) as Hr by (intros ->; by rewrite app_nil_r in Hne).
  destruct Hd as [Hd|(c' & Hc' & Hd)].
  { apply scandir_elem in Hd as (_ & _ & n & E).
    assert (length top < length a) as Hlen.
    { destruct Ha as [Ha|(c & Hc & Ha)].
      - apply scandir_elem in Ha as (_ & _ & m & ->). rewrite length_app. simpl. lia.
      - apply walk_dirs_sound in Ha as (_ & Hp & Hl). apply scandir_elem in Hc as (_ & _ & m & ->).
        rewrite length_app in Hl. simpl in Hl. lia. }
    apply (f_equal length) in E. rewrite !length_app in E. simpl in E.
    destruct r; [done|simpl in E; lia]. }
  destruct Ha as [Ha|(c & Hc & Ha)].
  - apply before_app_lr; [done|]. apply elem_of_flat_map. eauto.
  - apply before_app_r. assert (c = c') as <-.
    { apply scandir_elem in Hc as (_ & _ & n & ->).
      apply scandir_elem in Hc' as (_ & _ & n' & ->).
      apply walk_dirs_sound in Ha as (_ & [k ->] & _).
      apply walk_dirs_sound in Hd as (_ & [k' E] & _).
      rewrite <- !app_assoc in E. apply app_inv_head in E. by injection E as ->. }
    apply (before_flat_map _ _ c); [done|]. apply IH; [done|done|]. split; [by exists r|done].
Qed.

Section YearDirs.
Context {consts : Constants} {unicode : UnicodeData}.

(** X4. On a well-formed tree [find_year_prefixed_dirs] returns exactly the
    existing directories strictly below [base_dir] whose name starts with
    four decimal digits, each of them once; [base_dir] itself is never in
    the list. *)
Theorem year_dirs_exactly (base_dir : Path) (tree : FileSystem) :
  fs_wf tree →
  NoDup (find_year_prefixed_dirs base_dir tree)
  ∧ (base_dir ∉ find_year_prefixed_dirs base_dir tree)
  ∧ (∀ p : Path, p ∈ find_year_prefixed_dirs base_dir tree
       ↔ (is_Some (tree !! p) ∧ above base_dir p ∧ YEAR_PATTERN_match (name p) = true)).
Proof.
  intros Hwf. unfold find_year_prefixed_dirs. split; [|split].
  - apply NoDup_filter, walk_dirs_NoDup.
  - intros [_ Hb]%list_elem_of_filter. apply os_walk_dirs_sound in Hb as (_ & _ & ?). lia.
  - intros p. rewrite list_elem_of_filter. split.
    + intros [Hy Hp]. apply os_walk_dirs_sound in Hp as (Hp & Hpre & Hlen).
      split; [done|]. split; [|done]. split; [done|]. intros ->. lia.
    + intros (Hp & [Hpre Hne] & Hy). split; [done|]. by apply os_walk_dirs_complete.
Qed.

(** X5. The list of year directories is top-down: a year directory stands
    before every year directory inside it, so the last loop of
    [process_directories] calls [rename_directory] on the outer one first. *)
Theorem year_dirs_outer_first (base_dir : Path) (tree : FileSystem) (a d : Path) :
  a ∈ find_year_prefixed_dirs base_dir tree →
  d ∈ find_year_prefixed_dirs base_dir tree →
  above a d →
  before (find_year_prefixed_dirs base_dir tree) a d
  ∧ before (visit_order base_dir tree) a d.
Proof.
  unfold find_year_prefixed_dirs at 1 2. rewrite !list_elem_of_filter.
  intros [Ha Ha'] [Hd Hd'] Habove.
  assert (before (find_year_prefixed_dirs base_dir tree) a d) as Hb.
  { apply before_filter; [done|done|]. by apply walk_dirs_top_down. }
  split; [done|]. unfold visit_order. by apply before_app_r.
Qed.

End YearDirs.

Lemma year_dirs_exactly_witness :
  fs_wf nested_tree
  ∧ NoDup (find_year_prefixed_dirs (unicode := ascii_digits) base nested_tree)
  ∧ base ∉ find_year_prefixed_dirs (unicode := ascii_digits) base nested_tree.
Proof.
  assert (fs_wf nested_tree) as Hwf by (apply parents_exist_wf; vm_compute; reflexivity).
  split; [exact Hwf|].
  destruct (year_dirs_exactly (unicode := ascii_digits) base nested_tree Hwf) as (Hnd & Hb & _).
  split; [exact Hnd|exact Hb].
Defined.

Lemma year_dirs_outer_first_witness :
  let outer := base ++ [of_ascii "2020"] in
  let inner := outer ++ [of_ascii "2021 A's"] in
  above outer inner
  ∧ before (find_year_prefixed_dirs (unicode := ascii_digits) base nested_tree) outer inner
  ∧ before (visit_order (unicode := ascii_digits) base nested_tree) outer inner.
Proof.
  intros outer inner.
  assert (outer ∈ find_year_prefixed_dirs (unicode := ascii_digits) base nested_tree) as Ho
    by (vm_compute; apply list_elem_of_here).
  assert (inner ∈ find_year_prefixed_dirs (unicode := ascii_digits) base nested_tree) as Hi
    by (vm_compute; apply list_elem_of_further, list_elem_of_here).
  assert (above outer inner) as Hab.
  { split; [by exists [of_ascii "2021 A's"]|]. intros E. apply (f_equal length) in E.
    vm_compute in E. discriminate. }
  split; [exact Hab|].
  exact (year_dirs_outer_first (unicode := ascii_digits) base nested_tree outer inner Ho Hi Hab).
Defined.

(** ** How often a directory is visited *)

Lemma occurrences_app (d : Path) (l l' : list Path) :
  occurrences d (l ++ l') = occurrences d l + occurrences d l'.
Proof. unfold occurrences. by rewrite filter_app, length_app. Qed.

Lemma occurrences_perm (d : Path) (l l' : list Path) :
  l ≡ₚ l' → occurrences d l = occurrences d l'.
Proof. intros Hp. unfold occurrences. by rewrite Hp. Qed.

Lemma occurrences_NoDup (d : Path) (l : list Path) :
  NoDup l → occurrences d l = if decide (d ∈ l) then 1 else 0.
Proof.
  unfold occurrences. induction l as [|x l IH]; intros Hnd.
  - by rewrite decide_False by apply not_elem_of_nil.
  - apply NoDup_cons in Hnd as [Hx Hnd]. rewrite filter_cons.
    destruct (decide (x = d)) as [->|Hne]; simpl; rewrite (IH Hnd).
    + rewrite (decide_False (P := d ∈ l)) by done.
      rewrite decide_True by left. done.
    + destruct (decide (d ∈ l)) as [Hd|Hd].
      * rewrite decide_True by (by right). done.
      * rewrite decide_False; [done|]. intros [?|?]%elem_of_cons; congruence.
Qed.

Lemma occurrences_flat_map (d : Path) (f : Path → list Path) (l : list Path) :
  (∀ x, x ∈ l → NoDup (f x)) →
  occurrences d (flat_map f l) = length (filter (λ x, d ∈ f x) l).
Proof.
  induction l as [|x l IH]; intros Hf; [done|].
  simpl. rewrite occurrences_app, IH by (intros y Hy; apply Hf; by right).
  rewrite occurrences_NoDup by (apply Hf; left). rewrite filter_cons.
  destruct (decide (d ∈ f x)); simpl; lia.
Qed.

Section Visits.
Context {consts : Constants} {unicode : UnicodeData}.

(** X6. On a well-formed tree [process_directories] calls
    [rename_directory] on an existing directory once for every year
    directory above it, and once more when it is a year directory itself:
    a directory below two nested year directories is handled twice, one
    below none is never handled. *)
Theorem visit_multiplicity (base_dir : Path) (tree : FileSystem) (d : Path) :
  fs_wf tree → is_Some (tree !! d) →
  let year_dirs := find_year_prefixed_dirs base_dir tree in
  occurrences d (visit_order base_dir tree)
  = length (filter (λ y, above y d) year_dirs)
    + (if decide (d ∈ year_dirs) then 1 else 0).
Proof.
  intros Hwf Hd year_dirs. unfold visit_order. fold year_dirs.
  rewrite occurrences_app, (occurrences_perm _ _ _ (sort_desc_perm _ _)).
  f_equal.
  - unfold collect_all_dirs. rewrite occurrences_flat_map by (intros; apply walk_dirs_NoDup).
    f_equal. apply list_filter_iff. intros y. split.
    + intros (_ & Hp & Hl)%os_walk_dirs_sound. split; [done|]. intros ->. lia.
    + intros [Hp Hne]. by apply os_walk_dirs_complete.
  - apply occurrences_NoDup. unfold year_dirs, find_year_prefixed_dirs.
    apply NoDup_filter, walk_dirs_NoDup.
Qed.

Lemma rename_each_nil (dry_run : bool) (s : State) : rename_each dry_run [] s = s.
Proof. done. Qed.

(** X7. When nothing below [base_dir] starts with four digits, in
    particular when [base_dir] does not exist, no directory is processed:
    [run] returns [False] in either mode, the exit status of [main] is 1,
    and the tree, the ledgers and the cache are untouched. *)
Theorem nothing_to_process (dry_run : bool) (base_dir : Path) (tree : FileSystem) :
  find_year_prefixed_dirs base_dir tree = [] →
  run dry_run base_dir (init tree) = (false, init tree)
  ∧ main dry_run base_dir tree = 1%Z.
Proof.
  intros Hnone. unfold main, run, process_directories. simpl. rewrite Hnone. done.
Qed.

End Visits.

Lemma visit_multiplicity_witness :
  let inner := base ++ [of_ascii "2020"; of_ascii "2021 A's"] in
  fs_wf nested_tree
  ∧ is_Some (nested_tree !! inner)
  ∧ is_Some (nested_tree !! (inner ++ [of_ascii "x"]))
  ∧ occurrences inner (visit_order (unicode := ascii_digits) base nested_tree) = 2
  ∧ occurrences (inner ++ [of_ascii "x"])
      (visit_order (unicode := ascii_digits) base nested_tree) = 2.
Proof.
  intros inner.
  assert (fs_wf nested_tree) as Hwf by (apply parents_exist_wf; vm_compute; reflexivity).
  assert (is_Some (nested_tree !! inner)) as Hi
    by (apply path_exists_true; vm_compute; reflexivity).
  assert (is_Some (nested_tree !! (inner ++ [of_ascii "x"]))) as Hx
    by (apply path_exists_true; vm_compute; reflexivity).
  split; [exact Hwf|]. split; [exact Hi|]. split; [exact Hx|]. split.
  - rewrite (visit_multiplicity (unicode := ascii_digits) base nested_tree inner Hwf Hi).
    vm_compute. reflexivity.
  - rewrite (visit_multiplicity (unicode := ascii_digits) base nested_tree _ Hwf Hx).
    vm_compute. reflexivity.
Defined.

(** [base] is missing. *)
Lemma nothing_to_process_witness :
  no_base_tree !! base = None
  ∧ find_year_prefixed_dirs (unicode := ascii_digits) base no_base_tree = []
  ∧ run (unicode := ascii_digits) false base (init no_base_tree) = (false, init no_base_tree)
  ∧ main (unicode := ascii_digits) true base no_base_tree = 1%Z.
Proof.
  assert (no_base_tree !! base = None) as Hb by (vm_compute; reflexivity).
  assert (find_year_prefixed_dirs (unicode := ascii_digits) base no_base_tree = []) as Hn.
  { unfold find_year_prefixed_dirs. by rewrite (os_walk_dirs_missing _ _ Hb). }
  split; [exact Hb|]. split; [exact Hn|]. split.
  - exact (proj1 (nothing_to_process (unicode := ascii_digits) false base no_base_tree Hn)).
  - exact (proj2 (nothing_to_process (unicode := ascii_digits) true base no_base_tree Hn)).
Defined.

(** ** The ledgers of a run *)

Section Ledgers.
Context {consts : Constants} {unicode : UnicodeData}.

(** A call appends to the skipped ledger exactly when the classifier
    rejects the name, whatever the mode and the tree. *)
Lemma rename_directory_skipped (dry_run : bool) (dir_path : Path) (s : State) :
  skipped_dirs (rename_directory dry_run dir_path s).2
  = skipped_dirs s ++ (if needs_standardization (name dir_path) then [] else [dir_path]).
Proof.
  pose proof (rename_directory_renamed_needs dry_run dir_path s) as Hn.
  destruct (needs_standardization (name dir_path)) eqn:Hneeds.
  - rewrite app_nil_r.
    destruct (rename_directory_ledgers dry_run dir_path s)
      as [(_ & E & _)|[(_ & E & _)|(? & _ & E & _)]]; try done.
    unfold rename_directory in E |- *. rewrite Hneeds in E |- *. simpl in E |- *.
    unfold save_metadata in *.
    destruct (path_exists (fs s) (new_path_of dir_path)); simpl in *; [done|].
    destruct (os_stat (fs s) dir_path); simpl in *; [|done].
    destruct dry_run; simpl in *; [done|].
    destruct (os_rename _ _ _); simpl in *; [|done].
    match goal with |- context [restore_metadata ?q ?t] =>
      pose proof (restore_metadata_keeps_ledgers q t) as (_ & Hk & _);
      destruct (restore_metadata q t) as [b s2] end.
    simpl in *. by rewrite Hk.
  - unfold rename_directory. by rewrite Hneeds.
Qed.

Lemma rename_each_skipped (dry_run : bool) (dirs : list Path) (s : State) :
  skipped_dirs (rename_each dry_run dirs s) = skipped_dirs s ++ not_eligible dirs.
Proof.
  unfold rename_each, not_eligible. revert s.
  induction dirs as [|p dirs IH]; intros s; simpl; [by rewrite app_nil_r|].
  rewrite IH, rename_directory_skipped, filter_cons.
  destruct (needs_standardization (name p)) eqn:Hn.
  - rewrite decide_False by done. by rewrite app_nil_r.
  - rewrite decide_True by done. by rewrite <- app_assoc.
Qed.

(** X8. Which directories a run skips depends only on their names: in
    either mode, and whatever happens to the tree on the way, the skipped
    ledger is the list of visited paths whose name the classifier rejects,
    in visiting order, and every other visit leaves one entry in the
    renamed or in the error ledger. *)
Theorem skipped_by_name_only (dry_run : bool) (base_dir : Path) (tree : FileSystem) :
  let s' := process_directories dry_run base_dir (init tree) in
  let visits := visit_order base_dir tree in
  skipped_dirs s' = filter (λ p, needs_standardization (name p) = false) visits
  ∧ length (renamed_dirs s') + length (error_dirs s')
    = length (filter (λ p, needs_standardization (name p) = true) visits).
Proof.
  intros s' visits. subst s' visits. rewrite process_directories_visits.
  change (fs (init tree)) with tree.
  pose proof (rename_each_skipped dry_run (visit_order base_dir tree) (init tree)) as Hs.
  simpl in Hs. split; [done|].
  pose proof (rename_each_total dry_run (visit_order base_dir tree) (init tree)) as Ht.
  unfold total_processed in Ht. rewrite Hs in Ht. simpl in Ht. unfold not_eligible in Ht.
  assert (∀ l : list Path,
            length (filter (λ p, needs_standardization (name p) = true) l)
            + length (filter (λ p, needs_standardization (name p) = false) l)
            = length l) as Hsplit.
  { induction l as [|p l IH]; [done|]. rewrite !filter_cons.
    destruct (needs_standardization (name p)); simpl;
      repeat case_decide; try done; simpl; lia. }
  specialize (Hsplit (visit_order base_dir tree)). lia.
Qed.

End Ledgers.

(** ** The program as it is written *)

Lemma needs_as_written (dir_name : str) :
  needs_standardization (consts := as_written) dir_name = false.
Proof.
  unfold needs_standardization, has_straight_apostrophe, has_typographic_apostrophe.
  simpl. apply andb_negb_r.
Qed.

Lemma rename_each_as_written {unicode : UnicodeData}
    (dry_run : bool) (dirs : list Path) (s : State) :
  rename_each (consts := as_written) dry_run dirs s
  = {| fs := fs s; renamed_dirs := renamed_dirs s;
       skipped_dirs := skipped_dirs s ++ dirs; error_dirs := error_dirs s;
       metadata_cache := metadata_cache s |}.
Proof.
  unfold rename_each. revert s. induction dirs as [|p dirs IH]; intros s.
  - simpl. rewrite app_nil_r. by destruct s.
  - simpl. rewrite IH. unfold rename_directory. rewrite needs_as_written. simpl.
    by rewrite <- app_assoc.
Qed.

(** X9. With the constants the source file has, a run in either mode
    renames nothing and records no error: the tree and the cache are
    untouched and every visited path lands in the skipped ledger.  [run]
    returns [True], and [main] the exit status 0, exactly when some
    directory below [base_dir] starts with four digits. *)
Theorem program_only_skips {unicode : UnicodeData}
    (dry_run : bool) (base_dir : Path) (tree : FileSystem) :
  run (consts := as_written) dry_run base_dir (init tree)
  = (bool_decide (find_year_prefixed_dirs base_dir tree ≠ []),
     {| fs := tree; renamed_dirs := []; skipped_dirs := visit_order base_dir tree;
        error_dirs := []; metadata_cache := ∅ |})
  ∧ main (consts := as_written) dry_run base_dir tree
    = (if bool_decide (find_year_prefixed_dirs base_dir tree ≠ []) then 0 else 1)%Z.
Proof.
  assert (run (consts := as_written) dry_run base_dir (init tree)
          = (bool_decide (find_year_prefixed_dirs base_dir tree ≠ []),
             {| fs := tree; renamed_dirs := []; skipped_dirs := visit_order base_dir tree;
                error_dirs := []; metadata_cache := ∅ |})) as Hrun.
  { unfold run. rewrite process_directories_visits, rename_each_as_written. simpl.
    f_equal. unfold validate_changes, total_processed. simpl.
    unfold visit_order. rewrite Nat.add_0_r, length_app.
    destruct (find_year_prefixed_dirs base_dir tree) as [|y l] eqn:Hy.
    - by rewrite bool_decide_eq_false_2 by (by intros ?).
    - rewrite bool_decide_eq_true_2 by done. simpl.
      by rewrite Nat.add_succ_r. }
  split; [done|]. unfold main. by rewrite Hrun.
Qed.

(** ** What a run does to the tree *)

Lemma same_dirs_size (t1 t2 : FileSystem) : same_dirs t1 t2 → size t1 = size t2.
Proof.
  intros Hs. rewrite <- !(size_dom (D := gset Path)). f_equal.
  apply set_eq. intros p. rewrite !elem_of_dom. apply Hs.
Qed.

Lemma moved_keys_NoDup (tree : FileSystem) (src dst : Path) :
  NoDup ((λ kv : Path * stat_result, (relocate src dst kv.1, kv.2))
           <$> map_to_list (filter (λ kv, src `prefix_of` kv.1) tree)).*1.
Proof.
  rewrite <- list_fmap_compose. apply NoDup_fmap_2_strong; [|apply NoDup_map_to_list].
  intros [k1 s1] [k2 s2] H1 H2 Heq. simpl in Heq.
  apply elem_of_map_to_list, map_lookup_filter_Some in H1 as [H1 P1].
  apply elem_of_map_to_list, map_lookup_filter_Some in H2 as [H2 P2].
  simpl in P1, P2. destruct P1 as [r1 ->], P2 as [r2 ->].
  unfold relocate in Heq. rewrite !drop_app_length in Heq.
  apply app_inv_head in Heq as ->. f_equal. congruence.
Qed.

(** A move to a free place keeps the number of directories. *)
Lemma move_tree_size (tree : FileSystem) (src dst : Path) :
  (∀ q : Path, dst `prefix_of` q → tree !! q = None) →
  size (move_tree tree src dst) = size tree.
Proof.
  intros Hfree. unfold move_tree.
  rewrite map_size_disj_union.
  - rewrite map_size_list_to_map by apply moved_keys_NoDup.
    rewrite length_fmap, length_map_to_list.
    rewrite <- map_size_disj_union by apply map_disjoint_filter_complement.
    by rewrite map_filter_union_complement.
  - apply map_disjoint_spec. intros q x y Hx Hy.
    assert (is_Some ((list_to_map
      ((λ kv : Path * stat_result, (relocate src dst kv.1, kv.2))
         <$> map_to_list (filter (λ kv, src `prefix_of` kv.1) tree)) : FileSystem) !! q))
      as Hq by (by exists x).
    apply list_to_map_is_Some in Hq. rewrite <- list_fmap_compose in Hq.
    apply list_elem_of_fmap in Hq as ([k st] & -> & _). simpl in Hy.
    apply map_lookup_filter_Some in Hy as [Hy _].
    rewrite Hfree in Hy; [done|]. unfold relocate. by eexists.
Qed.




Section TreeAfterRun.
Context {consts : Constants} {unicode : UnicodeData}.

(** The tree after a call that is not simulated: as before, or the move of
    the source to a free place, up to attributes. *)
Lemma rename_directory_fs (dir_path : Path) (s : State) :
  fs (rename_directory false dir_path s).2 = fs s
  ∨ (needs_standardization (name dir_path) = true
     ∧ fs s !! new_path_of dir_path = None
     ∧ same_dirs (move_tree (fs s) dir_path (new_path_of dir_path))
         (fs (rename_directory false dir_path s).2)).
Proof.
  unfold rename_directory, save_metadata.
  destruct (needs_standardization (name dir_path)) eqn:Hneeds; simpl; [|by left].
  destruct (path_exists (fs s) (new_path_of dir_path)) eqn:Hdst; simpl; [by left|].
  apply path_exists_false in Hdst.
  destruct (os_stat (fs s) dir_path) as [st|] eqn:Hstat; simpl; [|by left].
  unfold os_stat in Hstat.
  destruct (os_rename (fs s) dir_path (new_path_of dir_path)) as [tree|e] eqn:Hren;
    simpl; [|by left].
  assert (dir_path ≠ new_path_of dir_path) as Hdiff by (intros E; rewrite <- E in Hdst; congruence).
  destruct (os_rename_Ok _ _ _ _ Hren Hdiff) as (_ & _ & _ & ->).
  right. split; [done|]. split; [done|].
  match goal with |- context [restore_metadata ?q ?t] =>
    pose proof (λ p, restore_metadata_is_Some q p t) as Hsame;
    destruct (restore_metadata q t) as [b s2] end.
  simpl in *. intros p. symmetry. apply Hsame.
Qed.

Lemma rename_each_tree (dirs : list Path) (s : State) :
  run_inv s → NoDup (renamed_dirs s).*1 →
  size (fs (rename_each false dirs s)) = size (fs s).
Proof.
  unfold rename_each. revert s. induction dirs as [|p dirs IH]; intros s Hinv Hnd; [done|].
  simpl. destruct (rename_directory_inv p s Hinv Hnd) as [Hinv' Hnd'].
  rewrite (IH _ Hinv' Hnd').
  destruct (rename_directory_fs p s) as [->|(_ & Hfree & Hsame)]; [done|].
  rewrite <- (same_dirs_size _ _ Hsame). apply move_tree_size.
  intros q Hq. apply eq_None_not_Some. intros Hex.
  destruct Hinv as [Hwf _]. apply (Hwf q _ Hex) in Hq. destruct Hq. congruence.
Qed.

(** X10. A run on a well-formed tree, simulated or not, leaves a
    well-formed tree with as many directories as before: no directory is
    created, lost or left without its parent. *)
Theorem run_keeps_every_directory (dry_run : bool) (base_dir : Path) (tree : FileSystem) :
  fs_wf tree →
  let s' := process_directories dry_run base_dir (init tree) in
  fs_wf (fs s') ∧ size (fs s') = size tree.
Proof.
  intros Hwf s'. subst s'. rewrite process_directories_visits.
  destruct dry_run.
  - by rewrite rename_each_dry_fs.
  - assert (run_inv (init tree)) as Hinv.
    { split; [done|]. by intros q ?%elem_of_nil. }
    assert (NoDup (renamed_dirs (init tree)).*1) as Hnd by apply NoDup_nil_2.
    split.
    + by destruct (rename_each_inv (visit_order base_dir (fs (init tree))) _ Hinv Hnd)
        as [[? _] _].
    + by rewrite rename_each_tree.
Qed.



End TreeAfterRun.

Lemma run_keeps_every_directory_witness :
  let s' := process_directories (consts := as_documented) (unicode := ascii_digits)
              false base (init nested_tree) in
  fs_wf nested_tree ∧ fs_wf (fs s') ∧ size (fs s') = 6.
Proof.
  intros s'.
  assert (fs_wf nested_tree) as Hwf by (apply parents_exist_wf; vm_compute; reflexivity).
  split; [exact Hwf|].
  exact (run_keeps_every_directory (consts := as_documented) (unicode := ascii_digits)
           false base nested_tree Hwf).
Defined.



(** ** The verdict of a run *)

Section Verdict.
Context {consts : Constants} {unicode : UnicodeData}.

(** X13. [run] returns [True], and [main] the exit status 0, exactly when
    at the end every new path of the renamed ledger is on disk and some
    directory below [base_dir] starts with four digits; the mode is not
    asked. *)
Theorem run_verdict (dry_run : bool) (base_dir : Path) (tree : FileSystem) :
  let s' := process_directories dry_run base_dir (init tree) in
  ((run dry_run base_dir (init tree)).1 = true
   ↔ ((∀ r : Path * Path, r ∈ renamed_dirs s' → is_Some (fs s' !! r.2))
      ∧ find_year_prefixed_dirs base_dir tree ≠ []))
  ∧ (main dry_run base_dir tree = 0%Z ↔ (run dry_run base_dir (init tree)).1 = true).
Proof.
  intros s'. split.
  - unfold run. fold s'. cbn [fst]. rewrite validate_changes_spec.
    assert (total_processed s' ≠ 0 ↔ find_year_prefixed_dirs base_dir tree ≠ []) as ->.
    { subst s'. rewrite process_directories_visits, rename_each_total. simpl.
      unfold visit_order. rewrite length_app.
      destruct (find_year_prefixed_dirs base_dir tree) as [|y l]; simpl; [done|].
      split; [done|lia]. }
    by setoid_rewrite path_exists_true.
  - unfold main. destruct (run dry_run base_dir (init tree)).1; done.
Qed.


(** X15. The order of the first loop is stable: directories with the same
    number of path components are handled in the order in which the walks
    found them. *)
Theorem equal_depth_in_discovery_order (base_dir : Path) (tree : FileSystem) (k : nat) :
  let all_dirs := collect_all_dirs tree (find_year_prefixed_dirs base_dir tree) in
  filter (λ p, parts_len p = k) (sort_desc parts_len all_dirs)
  = filter (λ p, parts_len p = k) all_dirs
  ∧ visit_order base_dir tree
    = sort_desc parts_len all_dirs ++ find_year_prefixed_dirs base_dir tree.
Proof. intros all_dirs. split; [apply sort_desc_stable|done]. Qed.

End Verdict.


(** ** What the renamed ledger holds *)

Section RenamedLedger.
Context {consts : Constants} {unicode : UnicodeData}.





End RenamedLedger.



(** ** What a run achieves *)


Section Achieved.
Context {consts : Constants} {unicode : UnicodeData}.






End Achieved.



